(** * server/config_loader.py: default configuration store and deep merge

    A shallow embedding of [src/server/config_loader.py] and the
    properties of its four functions: [load_default_config],
    [get_default_config], [deep_merge] and [merge_with_default].

    Two views of the data are used.
    - Python values as finite trees ([value]); dictionaries are finite
      maps from strings.  [deep_merge] and [merge_with_default] are
      written over this view.
    - Python values as references into a heap of mutable objects
      ([pyval], [heap]).  [deep_merge_h] is the same loop written with
      the allocation and the item assignments the interpreter performs,
      so that aliasing, mutation and exceptions can be talked about. *)

From stdpp Require Import gmap strings list fin_maps.
From Stdlib Require Import ZArith.

#[local] Set Warnings "-register-all".
#[local] Open Scope string_scope.

(* ===================================================================== *)
(** ** Python values as trees *)
(* ===================================================================== *)

(** What [json.load] and [model_dump] hand to the module: [None],
    booleans, integers, floats, strings, lists and string-keyed
    dictionaries.  A float is carried by the bit pattern of its double;
    no function of the module inspects it. *)
Inductive value :=
  | VNone
  | VBool (b : bool)
  | VInt (n : Z)
  | VFloat (bits : Z)
  | VStr (s : string)
  | VList (l : list value)
  | VDict (m : gmap string value).

(** [isinstance(v, dict)] *)
Definition is_dict (v : value) : bool :=
  match v with VDict _ => true | _ => false end.

(** Number of constructors of a value, the measure for induction on
    nested dictionaries. *)
Fixpoint value_size (v : value) : nat :=
  match v with
  | VList l => S (foldr (fun x acc => value_size x + acc) 0 l)
  | VDict m => S (map_fold (fun _ x acc => value_size x + acc) 0 m)
  | _ => 1
  end.

(* ===================================================================== *)
(** ** deep_merge *)
(* ===================================================================== *)

(** One turn of the loop [for key, value in override.items()] of
    [deep_merge]: [rec] is the recursive call, [result] the dictionary
    being built.

<<
    if key in result and isinstance(result[key], dict) and isinstance(value, dict):
        result[key] = deep_merge(result[key], value)
    else:
        result[key] = value
>> *)
Definition merge_item (rec : gmap string value -> value -> gmap string value)
    (key : string) (v : value) (result : gmap string value)
    : gmap string value :=
  match result !! key, v with
  | Some (VDict b), VDict _ => <[key := VDict (rec b v)]> result
  | _, _ => <[key := v]> result
  end.

(** The body of [deep_merge], recursive on the override value:
    [result = base.copy()], then the loop over the items of
    [override].  The items of a dictionary have pairwise different keys,
    so the order in which the loop visits them does not change [result]
    (see [lookup_deep_merge]). *)
Fixpoint merge_into (base : gmap string value) (override : value) {struct override}
    : gmap string value :=
  match override with
  | VDict o => map_fold (merge_item merge_into) base o
  | _ => base
  end.

(** [deep_merge(base, override)] *)
Definition deep_merge (base override : gmap string value) : gmap string value :=
  merge_into base (VDict override).

(** What [deep_merge] leaves under one key, from what the two inputs
    have there. *)
Definition merge_entry (b o : option value) : option value :=
  match b, o with
  | Some (VDict x), Some (VDict y) => Some (VDict (deep_merge x y))
  | _, Some v => Some v
  | _, None => b
  end.

(* ===================================================================== *)
(** ** Python values as references into a heap *)
(* ===================================================================== *)

(** Exceptions the module can let through. [OSError], [JSONDecodeError]
    and [ValidationError] are raised by collaborators (the file system,
    [json], the [Config] model) and carry their message. *)
Inductive exn :=
  | AttributeError
  | TypeError
  | KeyError
  | RecursionError
  | OSError (msg : string)
  | UnicodeDecodeError (msg : string)
  | JSONDecodeError (msg : string)
  | ValidationError (msg : string).

Definition loc := positive.

(** A value as the interpreter holds it: scalars are immutable, lists
    and dictionaries are objects reached through a reference. *)
Inductive pyval :=
  | PNone
  | PBool (b : bool)
  | PInt (n : Z)
  | PFloat (bits : Z)
  | PStr (s : string)
  | PRef (l : loc).

Inductive pyobj :=
  | ODict (d : gmap string pyval)
  | OList (xs : list pyval).

Abbreviation heap := (gmap loc pyobj).

(** Result of running a piece of code from a heap: it returns, it
    raises, or it follows a reference to no object (no heap built by
    the interpreter has one). *)
Inductive outcome (A : Type) :=
  | Ret (a : A) (h : heap)
  | Raise (e : exn) (h : heap)
  | Dangling.
Arguments Ret {A} a h.
Arguments Raise {A} e h.
Arguments Dangling {A}.

Definition M (A : Type) : Type := heap -> outcome A.

Definition ret {A} (a : A) : M A := fun h => Ret a h.
Definition raise {A} (e : exn) : M A := fun h => Raise e h.
Definition bind {A B} (m : M A) (k : A -> M B) : M B :=
  fun h => match m h with
           | Ret a h' => k a h'
           | Raise e h' => Raise e h'
           | Dangling => Dangling
           end.

Notation "'let*' x ':=' m 'in' k" := (bind m (fun x => k))
  (at level 10, x pattern, m at level 100, k at level 200).

(** The object a reference points to. *)
Definition deref {A} (l : loc) (k : pyobj -> M A) : M A :=
  fun h => match h !! l with
           | Some o => k o h
           | None => Dangling
           end.

Definition alloc (o : pyobj) : M loc :=
  fun h => let l := fresh (dom h) in Ret l (<[l := o]> h).

Definition store (l : loc) (o : pyobj) : M unit :=
  fun h => Ret tt (<[l := o]> h).

(** [v.copy()]: a new dictionary (or list) with the same entries; the
    entries themselves are shared with [v]. Scalars have no [copy]. *)
Definition py_copy (v : pyval) : M loc :=
  match v with
  | PRef l => deref l alloc
  | _ => raise AttributeError
  end.

(** [v.items()], as the list of pairs the loop is going to visit. *)
Definition py_items (v : pyval) : M (list (string * pyval)) :=
  match v with
  | PRef l => deref l (fun o => match o with
                                | ODict d => ret (map_to_list d)
                                | OList _ => raise AttributeError
                                end)
  | _ => raise AttributeError
  end.

(** [key in result], for the object [result = base.copy()]. A string is
    in a list when it is one of its elements. *)
Definition py_contains (result : loc) (key : string) : M bool :=
  deref result (fun o => match o with
                         | ODict d => ret (bool_decide (is_Some (d !! key)))
                         | OList xs => ret (existsb (fun x => match x with
                                                             | PStr s => String.eqb s key
                                                             | _ => false
                                                             end) xs)
                         end).

(** [result[key]] *)
Definition py_getitem (result : loc) (key : string) : M pyval :=
  deref result (fun o => match o with
                         | ODict d => match d !! key with
                                      | Some v => ret v
                                      | None => raise KeyError
                                      end
                         | OList _ => raise TypeError
                         end).

(** [result[key] = v] *)
Definition py_setitem (result : loc) (key : string) (v : pyval) : M unit :=
  deref result (fun o => match o with
                         | ODict d => store result (ODict (<[key := v]> d))
                         | OList _ => raise TypeError
                         end).

(** [isinstance(v, dict)] *)
Definition py_isdict (v : pyval) : M bool :=
  match v with
  | PRef l => deref l (fun o => match o with
                                | ODict _ => ret true
                                | OList _ => ret false
                                end)
  | _ => ret false
  end.

(** [for x in xs: body(x)] *)
Fixpoint for_each {A} (xs : list A) (body : A -> M unit) : M unit :=
  match xs with
  | [] => ret tt
  | x :: xs' => let* _ := body x in for_each xs' body
  end.

(** The test of the [if], with the short circuit of [and]:
    [key in result and isinstance(result[key], dict) and isinstance(value, dict)] *)
Definition both_dicts (result : loc) (key : string) (v : pyval) : M bool :=
  let* present := py_contains result key in
  if present : bool then
    let* old := py_getitem result key in
    let* old_is_dict := py_isdict old in
    if old_is_dict : bool then py_isdict v else ret false
  else ret false.

(** One turn of the loop of [deep_merge] on the heap; [rec] is the
    recursive call and [result] the object made by [base.copy()]. *)
Definition merge_item_h (rec : pyval -> pyval -> M pyval) (result : loc)
    (item : string * pyval) : M unit :=
  let '(key, v) := item in
  let* recurse := both_dicts result key v in
  if recurse : bool then
    let* old := py_getitem result key in
    let* merged := rec old v in
    py_setitem result key merged
  else
    py_setitem result key v.

(** [deep_merge(base, override)] on the heap. [fuel] is the number of
    calls of [deep_merge] that the interpreter can still enter before
    it reaches its recursion limit: a call entered with none left
    raises [RecursionError], and nothing in [deep_merge] catches it.
    The loop visits the items that [override] has when it starts;
    [override] is not assigned to while it runs (the only object
    assigned to is [result], see [deep_merge_h_frame]). *)
Fixpoint deep_merge_h (fuel : nat) (base override : pyval) : M pyval :=
  match fuel with
  | 0 => raise RecursionError
  | S fuel' =>
      let* result := py_copy base in
      let* items := py_items override in
      let* _ := for_each items (merge_item_h (deep_merge_h fuel') result) in
      ret (PRef result)
  end.

(** [repr h p v]: in heap [h], the interpreter value [p] reads back as
    the tree [v]. *)
Inductive repr (h : heap) : pyval -> value -> Prop :=
  | repr_none : repr h PNone VNone
  | repr_bool b : repr h (PBool b) (VBool b)
  | repr_int n : repr h (PInt n) (VInt n)
  | repr_float x : repr h (PFloat x) (VFloat x)
  | repr_str s : repr h (PStr s) (VStr s)
  | repr_list l xs vs :
      h !! l = Some (OList xs) ->
      Forall2 (repr h) xs vs ->
      repr h (PRef l) (VList vs)
  | repr_dict l d m :
      h !! l = Some (ODict d) ->
      (forall k, option_Forall2 (repr h) (d !! k) (m !! k)) ->
      repr h (PRef l) (VDict m).

(** The heap without the objects at the locations in [X]. *)
Definition without (X : gset loc) (h : heap) : heap :=
  filter (fun lo => lo.1 ∉ X) h.

(** Partial correctness of a computation: from a heap satisfying [P],
    a return satisfies [Q] and a raise leaves a heap satisfying [E]. *)
Definition hoare {A} (P : heap -> Prop) (m : M A)
    (Q : A -> heap -> Prop) (E : heap -> Prop) : Prop :=
  forall h, P h ->
    match m h with
    | Ret a h' => Q a h'
    | Raise _ h' => E h'
    | Dangling => True
    end.

(** [deep_merge_h] with budget [n] computes [deep_merge]: run on
    dictionaries that read back as [jb] and [jo], with [jo] of size at
    most [n], it returns a reference to a new object that reads back as
    [deep_merge jb jo], and it changes no object that existed. [X] is a
    set of objects that the inputs do not reach; the result does not
    reach them either. *)
Definition refines_at (n : nat) : Prop :=
  forall jo jb (X : gset loc) (h : heap) b o,
    value_size (VDict jo) <= n ->
    X ⊆ dom h ->
    repr (without X h) b (VDict jb) ->
    repr (without X h) o (VDict jo) ->
    exists l h',
      deep_merge_h n b o h = Ret (PRef l) h'
      /\ h !! l = None
      /\ h ⊆ h'
      /\ repr (without X h') (PRef l) (VDict (deep_merge jb jo)).

(* ===================================================================== *)
(** ** The Config model *)
(* ===================================================================== *)

(** [manga_translator.Config] is imported by the module and defined
    elsewhere. The module uses two of its operations,
    [model_dump(exclude_unset=True)] and [Config.model_validate]; the
    properties below also read the fields of a configuration
    ([getattr]). They are taken as parameters. *)
Record ConfigModel := {
  Config : Type;
  (** the declared field names *)
  is_field : string -> bool;
  (** the declared default of a field *)
  field_default : string -> option value;
  (** [getattr(config, name)] *)
  getattr : Config -> string -> option value;
  (** [config.model_dump(exclude_unset=True)] *)
  model_dump_exclude_unset : Config -> gmap string value;
  (** [Config.model_validate(obj)] *)
  model_validate : value -> exn + Config;
}.

(** The entries of a mapping that name a declared field. *)
Definition declared (CM : ConfigModel) (m : gmap string value) : gmap string value :=
  filter (fun kv => is_field CM kv.1 = true) m.

(** What the module relies on from the model: a configuration validated
    from a mapping has, for each declared field, the value the mapping
    gives it, else the declared default; the fields it reports as
    explicitly set are the declared fields the mapping supplied; and
    validation looks at the declared fields only. *)
Record ConfigLaws (CM : ConfigModel) : Prop := {
  validate_getattr : forall m c k,
    model_validate CM (VDict m) = inr c ->
    is_field CM k = true ->
    getattr CM c k = match m !! k with
                     | Some v => Some v
                     | None => field_default CM k
                     end;
  validate_fields_set : forall m c,
    model_validate CM (VDict m) = inr c ->
    model_dump_exclude_unset CM c = declared CM m;
  validate_declared : forall m m',
    declared CM m = declared CM m' ->
    model_validate CM (VDict m) = model_validate CM (VDict m');
}.

(* ===================================================================== *)
(** ** merge_with_default *)
(* ===================================================================== *)

(** [deep_merge(base, override)] when [base] is whatever [json.load]
    returned. A list has [copy] but no item assignment by string, so
    the first turn of the loop raises; a scalar has no [copy]. *)
Definition deep_merge_any (base : value) (override : gmap string value) : exn + value :=
  match base with
  | VDict b => inr (VDict (deep_merge b override))
  | VList l => if bool_decide (dom override = ∅) then inr (VList l) else inl TypeError
  | _ => inl AttributeError
  end.

(** [list(v.keys())], evaluated for the log line of
    [merge_with_default]. *)
Definition keys (v : value) : exn + list string :=
  match v with
  | VDict m => inr (map fst (map_to_list m))
  | _ => inl AttributeError
  end.

(** [merge_with_default(request_config)], reading the global
    [_default_config]. The log line is not part of the result; of its
    evaluation only the failure of [keys] matters. *)
Definition merge_with_default (CM : ConfigModel) (_default_config : value)
    (request_config : Config CM) : exn + Config CM :=
  match _default_config with
  | VNone => inr request_config
  | _ =>
      let request_dict := model_dump_exclude_unset CM request_config in
      match deep_merge_any _default_config request_dict with
      | inl e => inl e
      | inr merged_dict =>
          match keys _default_config with
          | inl e => inl e
          | inr _ => model_validate CM merged_dict
          end
      end
  end.

(* ===================================================================== *)
(** ** The store: load_default_config and get_default_config *)
(* ===================================================================== *)

(** What the process does to the outside. *)
Inductive event :=
  | EvOpen (path : string)
  | EvPrint (line : string).

(** The global [_default_config] ([None] when nothing is loaded) and
    the events so far. *)
Record world := {
  default_config : value;
  events : list event;
}.

(** The file system and the JSON parser. [read_file path] is
    [open(path, 'r', encoding='utf-8')] followed by the read that
    [json.load] makes; [json_loads] is the parse. *)
Record env := {
  read_file : string -> exn + string;
  json_loads : string -> exn + value;
}.

(** [_default_config = None; return] *)
Definition clear (w : world) : (exn + unit) * world :=
  (inr tt, {| default_config := VNone; events := events w |}).

(** [load_default_config(config_path)]. [not config_path] holds of
    [None] and of the empty string. An exception leaves the function
    before the assignment to [_default_config]. *)
Definition load_default_config (E : env) (config_path : option string) (w : world)
    : (exn + unit) * world :=
  match config_path with
  | None => clear w
  | Some path =>
      if String.eqb path EmptyString then clear w
      else
        let opened := (events w ++ [EvOpen path])%list in
        match read_file E path with
        | inl e => (inl e, {| default_config := default_config w; events := opened |})
        | inr text =>
            match json_loads E text with
            | inl e => (inl e, {| default_config := default_config w; events := opened |})
            | inr parsed =>
                (inr tt,
                 {| default_config := parsed;
                    events := (opened ++
                      [EvPrint ("[Config] Loaded default config from: " ++ path)])%list |})
            end
        end
  end.

(** [load_default_config(config_path)] with the standard output as a
    parameter: [print line] is [None] when the output takes the line
    and [Some e] when writing it raises [e]. The line is printed after
    the assignment to [_default_config], so an exception of the print
    leaves the function with the parsed value stored.
    [load_default_config] above is the case of an output that takes
    every line. *)
Definition load_default_config_stdout (print : string -> option exn) (E : env)
    (config_path : option string) (w : world) : (exn + unit) * world :=
  match config_path with
  | None => clear w
  | Some path =>
      if String.eqb path EmptyString then clear w
      else
        let opened := (events w ++ [EvOpen path])%list in
        match read_file E path with
        | inl e => (inl e, {| default_config := default_config w; events := opened |})
        | inr text =>
            match json_loads E text with
            | inl e => (inl e, {| default_config := default_config w; events := opened |})
            | inr parsed =>
                let line := "[Config] Loaded default config from: " ++ path in
                match print line with
                | Some e => (inl e, {| default_config := parsed; events := opened |})
                | None =>
                    (inr tt,
                     {| default_config := parsed;
                        events := (opened ++ [EvPrint line])%list |})
                end
            end
        end
  end.

Definition get_default_config (w : world) : value * world :=
  (default_config w, w).

(* ===================================================================== *)
(** ** A sample Config model and sample inputs *)
(* ===================================================================== *)

(** Modelled from the spec: the class [manga_translator.Config] is not
    among the sources. The spec asks of it "a fixed set of named
    fields", each optionally unset, a way to get "only the
    explicitly-set fields as a mapping", and a constructor that
    validates a mapping "applying the same field definitions, types,
    and defaults". This model has three fields, [translator], [size]
    (a string) and [a] (a mapping); a configuration is the mapping of
    its explicitly set fields, and validation drops the entries that
    name no field. *)
Definition sample_defaults : gmap string value :=
  {[ "translator" := VStr "none";
     "size" := VStr "M";
     "a" := VDict {[ "b" := VInt 0; "c" := VInt 0 ]} ]}.

Record SampleConfig := { fields_set : gmap string value }.

Definition sample_is_field (k : string) : bool :=
  match sample_defaults !! k with Some _ => true | None => false end.

Definition sample_getattr (c : SampleConfig) (k : string) : option value :=
  if sample_is_field k then
    match fields_set c !! k with
    | Some v => Some v
    | None => sample_defaults !! k
    end
  else None.

Definition sample_validate (v : value) : exn + SampleConfig :=
  match v with
  | VDict m =>
      let known := filter (fun kv => sample_is_field kv.1 = true) m in
      match known !! "size" with
      | Some (VStr _) | None => inr {| fields_set := known |}
      | Some _ => inl (ValidationError "size: Input should be a valid string")
      end
  | _ => inl (ValidationError "Input should be a valid dictionary")
  end.

Definition Sample : ConfigModel := {|
  Config := SampleConfig;
  is_field := sample_is_field;
  field_default := fun k => sample_defaults !! k;
  getattr := sample_getattr;
  model_dump_exclude_unset := fields_set;
  model_validate := sample_validate;
|}.

(** Defaults [{"a": {"b": 1, "c": 2}}] and a request that sets only
    [a.b = 9]. *)
Definition nested_defaults : gmap string value :=
  {[ "a" := VDict {[ "b" := VInt 1; "c" := VInt 2 ]} ]}.
Definition nested_request : SampleConfig :=
  {| fields_set := {[ "a" := VDict {[ "b" := VInt 9 ]} ]} |}.
Definition nested_merged : SampleConfig :=
  {| fields_set := {[ "a" := VDict {[ "b" := VInt 9; "c" := VInt 2 ]} ]} |}.

(** Defaults [{"translator": "google", "size": "M"}] and a request that
    sets only [size = "L"]. *)
Definition flat_defaults : gmap string value :=
  {[ "translator" := VStr "google"; "size" := VStr "M" ]}.
Definition flat_request : SampleConfig :=
  {| fields_set := {[ "size" := VStr "L" ]} |}.
Definition flat_merged : SampleConfig :=
  {| fields_set := {[ "translator" := VStr "google"; "size" := VStr "L" ]} |}.

(** The property of the merged configuration, at the level of the
    fields of the request: an explicitly set field keeps its value,
    any other declared field has the value of the default
    configuration, else its declared default. *)
Definition set_fields_kept (CM : ConfigModel) (defaults : gmap string value)
    (request merged : Config CM) : Prop :=
  (forall k v, model_dump_exclude_unset CM request !! k = Some v ->
               getattr CM merged k = Some v)
  /\ (forall k, is_field CM k = true ->
                model_dump_exclude_unset CM request !! k = None ->
                getattr CM merged k = match defaults !! k with
                                      | Some v => Some v
                                      | None => field_default CM k
                                      end).

(** A heap holding [{"x": {"a": 1, "b": 2}}] at 1 and
    [{"x": {"b": 3}}] at 3. *)
Definition nested_heap : heap :=
  {[ 1%positive := ODict {[ "x" := PRef 2%positive ]};
     2%positive := ODict {[ "a" := PInt 1; "b" := PInt 2 ]};
     3%positive := ODict {[ "x" := PRef 4%positive ]};
     4%positive := ODict {[ "b" := PInt 3 ]} ]}.
Definition nested_base : gmap string value :=
  {[ "x" := VDict {[ "a" := VInt 1; "b" := VInt 2 ]} ]}.
Definition nested_override : gmap string value :=
  {[ "x" := VDict {[ "b" := VInt 3 ]} ]}.

(** A heap holding [{"x": {"a": 1}}] at 1 and [{"x": 5}] at 3. *)
Definition mismatch_heap : heap :=
  {[ 1%positive := ODict {[ "x" := PRef 2%positive ]};
     2%positive := ODict {[ "a" := PInt 1 ]};
     3%positive := ODict {[ "x" := PInt 5 ]} ]}.

(** A file system with no file [missing.json] and a file [broken.json]
    that holds an opening brace, and a parser that knows two
    documents. *)
Definition sample_env : env := {|
  read_file := fun path =>
    if String.eqb path "missing.json"
    then inl (OSError "No such file or directory: missing.json")
    else if String.eqb path "broken.json" then inr "{"
    else inr "null";
  json_loads := fun text =>
    if String.eqb text "null" then inr VNone
    else if String.eqb text "{}" then inr (VDict ∅)
    else inl (JSONDecodeError "Expecting property name enclosed in double quotes");
|}.

Definition sample_world : world :=
  {| default_config := VDict flat_defaults; events := [] |}.

(* ===================================================================== *)
(** ** Paths into nested dictionaries, further sample inputs *)
(* ===================================================================== *)

(** [v[k1][k2]...[kn]] for the keys of [path]; [None] when a key is
    missing or a value on the way is no dictionary. *)
Fixpoint lookup_path (path : list string) (v : value) : option value :=
  match path with
  | [] => Some v
  | k :: rest =>
      match v with
      | VDict m => match m !! k with
                   | Some x => lookup_path rest x
                   | None => None
                   end
      | _ => None
      end
  end.

(** [override] does not speak about [path]: going down [path] through
    the dictionaries of [override], a key is missing before the path
    ends. *)
Fixpoint silent_on (path : list string) (override : value) : bool :=
  match path, override with
  | k :: rest, VDict o =>
      match o !! k with
      | None => true
      | Some o' => match rest with
                   | [] => false
                   | _ :: _ => silent_on rest o'
                   end
      end
  | _, _ => false
  end.

(** The loop of [deep_merge] run over [items] from first to last, as
    the interpreter runs it over [override.items()] in insertion
    order. *)
Definition deep_merge_items (base : gmap string value)
    (items : list (string * value)) : gmap string value :=
  foldl (fun result item => merge_item merge_into item.1 item.2 result) base items.

(** A heap holding the list [["size"]] at 1 and [{"size": "L"}] at 3. *)
Definition list_heap : heap :=
  {[ 1%positive := OList [PStr "size"];
     3%positive := ODict {[ "size" := PStr "L" ]} ]}.

(** A heap holding at 1 a dictionary [d] with [d["x"] = d]. *)
Definition cyclic_heap : heap :=
  {[ 1%positive := ODict {[ "x" := PRef 1%positive ]} ]}.



(* ===================================================================== *)
(** ** Lemmas on values *)
(* ===================================================================== *)

Lemma value_size_lookup (m : gmap string value) k v :
  m !! k = Some v -> value_size v < value_size (VDict m).
Proof.
  intros Hk. cbn [value_size].
  rewrite (map_fold_delete_L _ _ k v m); [lia | | done].
  intros; lia.
Qed.

Lemma merge_into_dict (base override : gmap string value) :
  merge_into base (VDict override) = deep_merge base override.
Proof. reflexivity. Qed.

Lemma deep_merge_empty_r (a : gmap string value) : deep_merge a ∅ = a.
Proof. unfold deep_merge. cbn [merge_into]. apply map_fold_empty. Qed.

(** The loop, read off key by key. *)
Lemma lookup_deep_merge (base override : gmap string value) k :
  deep_merge base override !! k = merge_entry (base !! k) (override !! k).
Proof.
  unfold deep_merge. cbn [merge_into]. revert k.
  apply (map_fold_weak_ind
           (fun r m => forall k, r !! k = merge_entry (base !! k) (m !! k))).
  - intros k. rewrite lookup_empty. by destruct (base !! k) as [[]|].
  - intros i x m r Hi IH k. unfold merge_item.
    destruct (decide (i = k)) as [->|Hne].
    + rewrite lookup_insert_eq. specialize (IH k). rewrite Hi in IH.
      assert (Hr : r !! k = base !! k) by (rewrite IH; by destruct (base !! k) as [[]|]).
      rewrite Hr.
      destruct (base !! k) as [[]|], x; cbn; by rewrite ?lookup_insert_eq.
    + rewrite lookup_insert_ne by done. rewrite <- IH.
      destruct (r !! i) as [[]|], x; by rewrite lookup_insert_ne.
Qed.

Lemma deep_merge_empty_l (b : gmap string value) : deep_merge ∅ b = b.
Proof.
  apply map_eq; intros k. rewrite lookup_deep_merge, lookup_empty.
  by destruct (b !! k).
Qed.

Lemma dom_deep_merge (base override : gmap string value) :
  dom (deep_merge base override) = dom base ∪ dom override.
Proof.
  apply set_eq; intros k.
  rewrite elem_of_union, !elem_of_dom, lookup_deep_merge.
  destruct (base !! k) as [[]|], (override !! k) as [[]|]; cbn;
    rewrite <- ?not_eq_None_Some; split; intros; try tauto; try (left; congruence);
      try (right; congruence); congruence.
Qed.

(* ===================================================================== *)
(** ** Rules for computations on the heap *)
(* ===================================================================== *)

Section Hoare.
Context {A B : Type}.
Implicit Types (P E : heap -> Prop).

Lemma hoare_ret P E (a : A) : hoare P (ret a) (fun _ => P) E.
Proof. intros h HP. exact HP. Qed.

Lemma hoare_bind P E (m : M A) (k : A -> M B) Q R :
  hoare P m Q E -> (forall a, hoare (Q a) (k a) R E) -> hoare P (bind m k) R E.
Proof.
  intros Hm Hk h HP. specialize (Hm h HP). unfold bind.
  destruct (m h) as [a h'| |]; try done. by apply Hk.
Qed.

Lemma hoare_assume P E (m : M A) Q (phi : Prop) :
  (phi -> hoare P m Q E) -> hoare (fun h => P h /\ phi) m Q E.
Proof. intros Hm h [HP Hphi]. by apply Hm. Qed.
End Hoare.

(** The operations that only read the heap keep any property of it. *)
Section ReadOnly.
Variable P : heap -> Prop.

Lemma py_items_reads v : hoare P (py_items v) (fun _ => P) P.
Proof.
  intros h HP. unfold py_items, deref, ret, raise.
  destruct v; try done. by destruct (h !! l) as [[]|].
Qed.

Lemma py_contains_reads l key : hoare P (py_contains l key) (fun _ => P) P.
Proof.
  intros h HP. unfold py_contains, deref, ret. by destruct (h !! l) as [[]|].
Qed.

Lemma py_getitem_reads l key : hoare P (py_getitem l key) (fun _ => P) P.
Proof.
  intros h HP. unfold py_getitem, deref, ret, raise.
  destruct (h !! l) as [[d|]|]; try done. by destruct (d !! key).
Qed.

Lemma py_isdict_reads v : hoare P (py_isdict v) (fun _ => P) P.
Proof.
  intros h HP. unfold py_isdict, deref, ret.
  destruct v; try done. by destruct (h !! l) as [[]|].
Qed.

Lemma both_dicts_reads l key v : hoare P (both_dicts l key v) (fun _ => P) P.
Proof.
  unfold both_dicts.
  eapply hoare_bind; [apply py_contains_reads|]. intros [|]; [|apply hoare_ret].
  eapply hoare_bind; [apply py_getitem_reads|]. intros old.
  eapply hoare_bind; [apply py_isdict_reads|]. intros [|]; [|apply hoare_ret].
  apply py_isdict_reads.
Qed.
End ReadOnly.

(** ** deep_merge assigns to no object that existed before the call *)

Section Frame.
Variable hb : heap.
Local Abbreviation above := (fun h : heap => hb ⊆ h).

Lemma py_copy_frame v :
  hoare above (py_copy v) (fun l h => above h /\ hb !! l = None) above.
Proof.
  intros h Hh. unfold py_copy, deref, alloc, raise.
  destruct v; try done. destruct (h !! l) as [o|]; [|done].
  assert (Hfresh : h !! fresh (dom h) = None)
    by (apply not_elem_of_dom, is_fresh).
  split.
  - etrans; [exact Hh|]. by apply insert_subseteq.
  - by eapply lookup_weaken_None.
Qed.

Lemma py_setitem_frame l key v :
  hb !! l = None -> hoare above (py_setitem l key v) (fun _ => above) above.
Proof.
  intros Hl h Hh. unfold py_setitem, deref, store, raise.
  destruct (h !! l) as [[d|]|]; try done.
  by apply insert_subseteq_r.
Qed.

Lemma merge_item_h_frame rec l item :
  (forall b o, hoare above (rec b o) (fun _ => above) above) ->
  hb !! l = None ->
  hoare above (merge_item_h rec l item) (fun _ => above) above.
Proof.
  intros Hrec Hl. destruct item as [key v]. unfold merge_item_h.
  eapply hoare_bind; [apply both_dicts_reads|]. intros [|].
  - eapply hoare_bind; [apply py_getitem_reads|]. intros old.
    eapply hoare_bind; [apply Hrec|]. intros merged.
    by apply py_setitem_frame.
  - by apply py_setitem_frame.
Qed.

Lemma for_each_frame {A} (body : A -> M unit) xs :
  (forall x, hoare above (body x) (fun _ => above) above) ->
  hoare above (for_each xs body) (fun _ => above) above.
Proof.
  intros Hbody. induction xs as [|x xs IH]; cbn [for_each].
  - apply hoare_ret.
  - eapply hoare_bind; [apply Hbody|]. intros []. exact IH.
Qed.
End Frame.

Lemma deep_merge_h_frame fuel : forall hb base override,
  hoare (fun h => hb ⊆ h) (deep_merge_h fuel base override)
        (fun _ h => hb ⊆ h) (fun h => hb ⊆ h).
Proof.
  induction fuel as [|fuel IH]; intros hb base override; cbn [deep_merge_h].
  - by intros h Hh.
  - eapply hoare_bind; [apply py_copy_frame|]. intros result.
    apply hoare_assume; intros Hres.
    eapply hoare_bind; [apply py_items_reads|]. intros items.
    eapply hoare_bind.
    + apply for_each_frame. intros item. apply merge_item_h_frame; [|done].
      intros b o. apply IH.
    + intros []. apply (hoare_ret (fun h => hb ⊆ h)).
Qed.

(* ===================================================================== *)
(** ** Induction on values, reading back from the heap *)
(* ===================================================================== *)

Lemma value_size_elem (l : list value) x :
  x ∈ l -> value_size x < value_size (VList l).
Proof.
  intros Hx. cbn [value_size].
  induction Hx as [x l|x y l _ IH]; cbn [foldr]; lia.
Qed.

Lemma value_nested_ind (P : value -> Prop) :
  P VNone ->
  (forall b, P (VBool b)) ->
  (forall n, P (VInt n)) ->
  (forall x, P (VFloat x)) ->
  (forall s, P (VStr s)) ->
  (forall l, Forall P l -> P (VList l)) ->
  (forall m, map_Forall (fun _ => P) m -> P (VDict m)) ->
  forall v, P v.
Proof.
  intros HN HB HI HF HS HL HD v.
  remember (value_size v) as n eqn:Hn. revert v Hn.
  induction (lt_wf n) as [n _ IH]. intros [] ->; auto.
  - apply HL, Forall_forall. intros x Hx.
    eapply IH; [|done]. by apply value_size_elem.
  - apply HD. intros k x Hk.
    eapply IH; [|done]. by eapply value_size_lookup.
Qed.

Lemma Forall2_Forall_impl {A B} (R R' : A -> B -> Prop) xs ys :
  Forall2 R xs ys ->
  Forall (fun y => forall x, R x y -> R' x y) ys ->
  Forall2 R' xs ys.
Proof.
  induction 1 as [|x y xs ys HR _ IH]; intros Hall; [constructor|].
  inversion Hall; subst. constructor; auto.
Qed.

Lemma repr_mono v : forall h h' p, h ⊆ h' -> repr h p v -> repr h' p v.
Proof.
  induction v as [| | | | |vs IH|m IH] using value_nested_ind;
    intros h h' p Hsub Hr; inversion Hr; subst; try by constructor.
  - eapply repr_list; [by eapply lookup_weaken|].
    eapply Forall2_Forall_impl; [done|].
    eapply Forall_impl; [exact IH|]. cbn. eauto.
  - eapply repr_dict; [by eapply lookup_weaken|]. intros k.
    match goal with H : forall _, option_Forall2 _ _ _ |- _ => specialize (H k) end.
    destruct (m !! k) as [v|] eqn:Hk;
      match goal with H : option_Forall2 _ _ _ |- _ => inversion H; subst end;
      constructor.
    eapply (IH k v Hk); eauto.
Qed.

(** A representable value is a dictionary in the heap exactly when its
    tree is one. *)
Lemma py_isdict_repr h0 h p v :
  repr h0 p v -> h0 ⊆ h -> py_isdict p h = Ret (is_dict v) h.
Proof.
  intros Hr Hsub. inversion Hr; subst; try done; unfold py_isdict, deref;
    by erewrite lookup_weaken by done.
Qed.

(** ** Facts on [without] *)

Lemma without_subseteq X h : without X h ⊆ h.
Proof. apply map_filter_subseteq. Qed.

Lemma without_mono X h h' : h ⊆ h' -> without X h ⊆ without X h'.
Proof. apply map_filter_subseteq_mono. Qed.

Lemma without_empty h : without ∅ h = h.
Proof. apply map_filter_id. intros; set_solver. Qed.

Lemma lookup_without X h l :
  l ∉ X -> without X h !! l = h !! l.
Proof.
  intros Hl. apply option_eq; intros o. unfold without.
  rewrite map_lookup_filter_Some. cbn. tauto.
Qed.

Lemma without_insert X h l o : l ∈ X -> without X (<[l := o]> h) = without X h.
Proof.
  intros Hl. apply map_eq; intros i. apply option_eq; intros o'.
  unfold without. rewrite !map_lookup_filter_Some. cbn.
  destruct (decide (i = l)) as [->|Hne]; [tauto|].
  by rewrite lookup_insert_ne.
Qed.

Lemma without_fresh X hb h l :
  hb ⊆ h -> hb !! l = None -> without X hb ⊆ without (X ∪ {[l]}) h.
Proof.
  intros Hsub Hl. apply map_subseteq_spec; intros i o.
  unfold without. rewrite !map_lookup_filter_Some. cbn.
  intros [Hi HX]. split; [by eapply lookup_weaken|].
  assert (Hne : i <> l) by congruence.
  rewrite elem_of_union, elem_of_singleton. tauto.
Qed.

Lemma without_more X l h : without (X ∪ {[l]}) h ⊆ without X h.
Proof.
  apply map_subseteq_spec; intros i o.
  unfold without. rewrite !map_lookup_filter_Some. cbn.
  intros [Hi HX]. split; [done|set_solver].
Qed.

(* ===================================================================== *)
(** ** deep_merge on the heap computes deep_merge on trees *)
(* ===================================================================== *)

Lemma both_dicts_repr h0 h l dr key p bo v :
  h0 ⊆ h ->
  h !! l = Some (ODict dr) ->
  option_Forall2 (repr h0) (dr !! key) bo ->
  repr h0 p v ->
  both_dicts l key p h
  = Ret (match bo with Some bv => is_dict bv && is_dict v | None => false end) h.
Proof.
  intros Hsub Hl Hold Hp. unfold both_dicts, bind, py_contains, py_getitem, deref.
  rewrite Hl. inversion Hold as [old bv Hr Hd|Hd]; subst; cbn.
  - rewrite Hl, <- Hd. unfold ret.
    rewrite (py_isdict_repr h0 h old bv) by done.
    destruct (is_dict bv); cbn; [|done].
    by rewrite (py_isdict_repr h0 h p v).
  - done.
Qed.

Section Loop.
Variables (n : nat) (X : gset loc) (hb : heap) (l : loc).
Variables (jb jo : gmap string value).
Hypothesis IHn : refines_at n.
Hypothesis Hfresh : hb !! l = None.
Hypothesis HX : X ⊆ dom hb.
Hypothesis Hsize : value_size (VDict jo) <= S n.

Local Abbreviation X' := (X ∪ {[l]}).

(** One turn: the entry under [key] becomes what [merge_entry]
    says, the other entries stay. *)
Lemma merge_item_h_repr hc dr key p v :
  hb ⊆ hc ->
  hc !! l = Some (ODict dr) ->
  option_Forall2 (repr (without X' hc)) (dr !! key) (jb !! key) ->
  jo !! key = Some v ->
  repr (without X hb) p v ->
  exists h2 p' v',
    merge_item_h (deep_merge_h n) l (key, p) hc
    = Ret tt (<[l := ODict (<[key := p']> dr)]> h2)
    /\ hc ⊆ h2
    /\ merge_entry (jb !! key) (Some v) = Some v'
    /\ repr (without X' h2) p' v'.
Proof.
  intros Hsub Hl Hold Hv Hp.
  assert (Hp' : repr (without X' hc) p v).
  { eapply repr_mono; [|exact Hp]. by apply without_fresh. }
  unfold merge_item_h, bind.
  rewrite (both_dicts_repr (without X' hc) hc l dr key p (jb !! key) v);
    [|apply without_subseteq|done..].
  assert (Hplain : forall v', merge_entry (jb !! key) (Some v) = Some v' ->
            v' = v ->
            exists h2 p' v'',
              py_setitem l key p hc = Ret tt (<[l := ODict (<[key := p']> dr)]> h2)
              /\ hc ⊆ h2
              /\ merge_entry (jb !! key) (Some v) = Some v''
              /\ repr (without X' h2) p' v'').
  { intros v' Hm ->. exists hc, p, v. split; [|done].
    unfold py_setitem, deref, store. by rewrite Hl. }
  destruct (jb !! key) as [bv|] eqn:Hb; [|by eapply Hplain].
  destruct bv as [| | | | | |bm]; cbn [is_dict andb]; try by eapply Hplain.
  destruct v as [| | | | | |om]; cbn [is_dict andb]; try by eapply Hplain.
  inversion Hold as [old bv Hr Hd Hbv|]; subst.
  unfold py_getitem, deref. rewrite Hl, <- Hd. unfold ret.
  destruct (IHn om bm X' hc old p) as (l2 & h2 & Hrun & Hl2 & Hsub2 & Hres).
  - pose proof (value_size_lookup jo key (VDict om) Hv). lia.
  - apply union_subseteq. split.
    + etrans; [exact HX|]. by apply subseteq_dom.
    + apply singleton_subseteq_l, elem_of_dom. eauto.
  - done.
  - done.
  - rewrite Hrun. exists h2, (PRef l2), (VDict (deep_merge bm om)).
    split; [|done].
    unfold py_setitem, deref, store.
    by rewrite (lookup_weaken hc h2 l (ODict dr)).
Qed.

(** The loop: [items] are the items still to visit; the entries
    under their keys are still those of [base], the others are
    merged. *)
Lemma for_each_repr items : forall hc dr,
  NoDup items.*1 ->
  (forall k p, (k, p) ∈ items ->
     exists v, jo !! k = Some v /\ repr (without X hb) p v) ->
  hb ⊆ hc ->
  hc !! l = Some (ODict dr) ->
  (forall k, option_Forall2 (repr (without X' hc)) (dr !! k)
               (if decide (k ∈ items.*1) then jb !! k
                else merge_entry (jb !! k) (jo !! k))) ->
  exists h' dr',
    for_each items (merge_item_h (deep_merge_h n) l) hc = Ret tt h'
    /\ hb ⊆ h'
    /\ h' !! l = Some (ODict dr')
    /\ forall k, option_Forall2 (repr (without X' h')) (dr' !! k)
                   (merge_entry (jb !! k) (jo !! k)).
Proof.
  induction items as [|[key p] items IH]; intros hc dr Hnd Hitems Hsub Hl Hent.
  - exists hc, dr. by repeat split.
  - cbn in Hnd. apply NoDup_cons in Hnd as [Hkey Hnd].
    destruct (Hitems key p) as (v & Hv & Hp); [apply elem_of_cons; by left|].
    pose proof (Hent key) as Hold.
    rewrite decide_True in Hold by (cbn; apply elem_of_cons; by left).
    destruct (merge_item_h_repr hc dr key p v Hsub Hl Hold Hv Hp)
      as (h2 & p' & v' & Hrun & Hsub2 & Hmerge & Hres).
    cbn [for_each]. unfold bind. rewrite Hrun.
    apply (IH (<[l := ODict (<[key := p']> dr)]> h2) (<[key := p']> dr)).
    + done.
    + intros k q Hk. apply Hitems, elem_of_cons. by right.
    + apply insert_subseteq_r; [done|]. by etrans.
    + apply lookup_insert_eq.
    + intros k. rewrite without_insert
        by (apply elem_of_union; right; by apply elem_of_singleton).
      destruct (decide (k = key)) as [->|Hne].
      * rewrite lookup_insert_eq, decide_False by done.
        rewrite Hv, Hmerge. by constructor.
      * rewrite lookup_insert_ne by done.
        specialize (Hent k). cbn in Hent.
        assert (Hiff : k ∈ key :: items.*1 <-> k ∈ items.*1)
          by (rewrite elem_of_cons; tauto).
        assert (Hmono : forall t,
                  option_Forall2 (repr (without (X ∪ {[l]}) hc)) (dr !! k) t ->
                  option_Forall2 (repr (without (X ∪ {[l]}) h2)) (dr !! k) t).
        { intros t Ht. destruct Ht; constructor.
          eapply repr_mono; [|done]. by apply without_mono. }
        apply Hmono.
        destruct (decide (k ∈ items.*1)) as [Hin|Hin].
        -- by rewrite decide_True in Hent by tauto.
        -- by rewrite decide_False in Hent by tauto.
Qed.
End Loop.

Lemma deep_merge_h_refines n : refines_at n.
Proof.
  induction n as [|n IH]; intros jo jb X h b o Hsize HX Hb Ho.
  { cbn in Hsize. lia. }
  inversion Hb as [| | | | | |lb db ? Hlb Hdb]; subst.
  inversion Ho as [| | | | | |lo dov ? Hlo Hdo]; subst.
  apply (lookup_weaken _ h) in Hlb; [|apply without_subseteq].
  apply (lookup_weaken _ h) in Hlo; [|apply without_subseteq].
  set (l := fresh (dom h)).
  assert (Hl : h !! l = None) by (apply not_elem_of_dom, is_fresh).
  assert (Hlo' : <[l := ODict db]> h !! lo = Some (ODict dov)).
  { rewrite lookup_insert_ne; [done|]. intros ->. congruence. }
  destruct (for_each_repr n X h l jb jo IH Hl HX Hsize (map_to_list dov)
              (<[l := ODict db]> h) db) as (h' & dr' & Hrun & Hsub & Hl' & Hent).
  - apply NoDup_fst_map_to_list.
  - intros k p Hk. apply elem_of_map_to_list in Hk.
    specialize (Hdo k). rewrite Hk in Hdo. inversion Hdo; subst. eauto.
  - by apply insert_subseteq.
  - apply lookup_insert_eq.
  - intros k.
    assert (Htarget : (if decide (k ∈ (map_to_list dov).*1) then jb !! k
                       else merge_entry (jb !! k) (jo !! k)) = jb !! k).
    { destruct (decide _) as [|Hnot]; [done|].
      assert (Hnone : dov !! k = None).
      { destruct (dov !! k) as [p|] eqn:Hk; [|done]. exfalso. apply Hnot.
        apply list_elem_of_fmap. exists (k, p). split; [done|].
        by apply elem_of_map_to_list. }
      specialize (Hdo k). rewrite Hnone in Hdo. inversion Hdo.
      by destruct (jb !! k) as [[]|]. }
    rewrite Htarget. specialize (Hdb k).
    destruct Hdb; constructor. eapply repr_mono; [|done].
    apply without_fresh; [by apply insert_subseteq|done].
  - exists l, h'. split; [|split; [done|split; [done|]]].
    + cbn [deep_merge_h]. unfold bind, py_copy, py_items, deref.
      rewrite Hlb. unfold alloc. fold l. rewrite Hlo'. unfold ret.
      by rewrite Hrun.
    + eapply repr_dict.
      * rewrite lookup_without; [done|].
        intros Hin. apply HX, elem_of_dom in Hin as [? ?]. congruence.
      * intros k. rewrite lookup_deep_merge.
        specialize (Hent k). destruct Hent; constructor.
        eapply repr_mono; [|done]. apply without_more.
Qed.

(* ===================================================================== *)
(** ** The store *)
(* ===================================================================== *)

Lemma load_nonempty (E : env) path w :
  path <> EmptyString ->
  load_default_config E (Some path) w
  = let opened := (events w ++ [EvOpen path])%list in
    match read_file E path with
    | inl e => (inl e, {| default_config := default_config w; events := opened |})
    | inr text =>
        match json_loads E text with
        | inl e => (inl e, {| default_config := default_config w; events := opened |})
        | inr parsed =>
            (inr tt,
             {| default_config := parsed;
                events := (opened ++
                  [EvPrint ("[Config] Loaded default config from: " ++ path)])%list |})
        end
    end.
Proof.
  intros Hne. unfold load_default_config.
  destruct (String.eqb_spec path EmptyString); [done|reflexivity].
Qed.

(** C8. When the file at a non-empty path cannot be read, the error of
    the read is what [load_default_config] raises; when it can be read
    but does not parse, the error of the parser is what it raises. In
    both cases the file was opened once, nothing was printed and
    [_default_config] is what it was: no retry, no fallback. *)
Theorem load_errors_propagate (E : env) (path : string) (w : world) (e : exn) :
  path <> EmptyString ->
  read_file E path = inl e
  \/ (exists text, read_file E path = inr text /\ json_loads E text = inl e) ->
  load_default_config E (Some path) w
  = (inl e, {| default_config := default_config w;
               events := (events w ++ [EvOpen path])%list |}).
Proof.
  intros Hne Hfail. rewrite load_nonempty by done. cbn zeta.
  destruct Hfail as [Hread|(text & Hread & Hparse)]; rewrite Hread; [done|].
  by rewrite Hparse.
Qed.

Lemma load_errors_propagate_witness :
  load_default_config sample_env (Some "missing.json") sample_world
  = (inl (OSError "No such file or directory: missing.json"),
     {| default_config := VDict flat_defaults; events := [EvOpen "missing.json"] |})
  /\ load_default_config sample_env (Some "broken.json") sample_world
     = (inl (JSONDecodeError "Expecting property name enclosed in double quotes"),
        {| default_config := VDict flat_defaults; events := [EvOpen "broken.json"] |}).
Proof.
  split.
  - apply (load_errors_propagate sample_env "missing.json" sample_world); [done|].
    left. reflexivity.
  - apply (load_errors_propagate sample_env "broken.json" sample_world); [done|].
    right. exists "{". split; reflexivity.
Defined.

(** C9. [load_default_config] with no path, or with the empty path,
    returns normally and leaves [None] in [_default_config];
    [get_default_config] then returns [None]. [get_default_config]
    returns what [_default_config] holds and leaves the world as it
    was. *)
Theorem load_empty_clears (E : env) (w : world) :
  let cleared := {| default_config := VNone; events := events w |} in
  load_default_config E None w = (inr tt, cleared)
  /\ load_default_config E (Some EmptyString) w = (inr tt, cleared)
  /\ get_default_config cleared = (VNone, cleared)
  /\ (forall w0, get_default_config w0 = (default_config w0, w0)).
Proof. done. Qed.

Lemma load_default_config_stdout_quiet (E : env) path w :
  load_default_config_stdout (fun _ => None) E path w
  = load_default_config E path w.
Proof. reflexivity. Qed.




(* ===================================================================== *)
(** ** Algebra of deep_merge *)
(* ===================================================================== *)

(** C5. The empty mapping is a right and a left identity of
    [deep_merge]. *)
Theorem deep_merge_empty (a b : gmap string value) :
  deep_merge a ∅ = a /\ deep_merge ∅ b = b.
Proof. split; [apply deep_merge_empty_r|apply deep_merge_empty_l]. Qed.

Lemma deep_merge_absorb_value (v : value) :
  match v with
  | VDict a => forall b, deep_merge a (deep_merge a b) = deep_merge a b
  | _ => True
  end.
Proof.
  induction v as [| | | | | |m IH] using value_nested_ind; try done.
  intros o. apply map_eq; intros k. rewrite !lookup_deep_merge.
  destruct (m !! k) as [bv|] eqn:Hk; [|by destruct (o !! k) as [[]|]].
  specialize (IH k bv Hk). cbn in IH.
  destruct bv as [| | | | | |x]; try by destruct (o !! k) as [[]|].
  destruct (o !! k) as [[| | | | | |y]|]; cbn; try done.
  - by rewrite IH.
  - f_equal. f_equal. rewrite <- (deep_merge_empty_r x) at 2 3. apply IH.
Qed.

(** Merging the same base in a second time changes nothing. *)
Lemma deep_merge_absorb (a b : gmap string value) :
  deep_merge a (deep_merge a b) = deep_merge a b.
Proof. apply (deep_merge_absorb_value (VDict a)). Qed.

Lemma merge_entry_absorb (d x : option value) :
  merge_entry d (merge_entry d x) = merge_entry d x.
Proof.
  destruct d as [[| | | | | |dm]|], x as [[| | | | | |xm]|]; cbn; try done.
  - by rewrite deep_merge_absorb.
  - f_equal. f_equal. rewrite <- (deep_merge_empty_r dm) at 2 3.
    apply deep_merge_absorb.
Qed.

(* ===================================================================== *)
(** ** merge_with_default *)
(* ===================================================================== *)

Lemma lookup_declared CM (m : gmap string value) k :
  declared CM m !! k = if is_field CM k then m !! k else None.
Proof.
  apply option_eq; intros v. unfold declared.
  rewrite map_lookup_filter_Some. cbn.
  destruct (is_field CM k); [tauto|].
  split; [intros []|]; discriminate.
Qed.

(** A merge that returned a configuration, with a default loaded, had a
    dictionary as default and validated the merged dictionary. *)
Lemma merge_with_default_inr CM dflt rc c :
  dflt <> VNone ->
  merge_with_default CM dflt rc = inr c ->
  exists D, dflt = VDict D
    /\ model_validate CM (VDict (deep_merge D (model_dump_exclude_unset CM rc))) = inr c.
Proof.
  intros Hloaded. unfold merge_with_default, deep_merge_any, keys.
  destruct dflt as [| | | | |l|D]; try done.
  - by destruct (bool_decide _).
  - eauto.
Qed.

Lemma sample_laws : ConfigLaws Sample.
Proof.
  split.
  - intros m c k Hval Hk. cbn in *. unfold sample_validate in Hval.
    set (known := filter (fun kv => sample_is_field kv.1 = true) m) in *.
    assert (Hknown : known !! k = m !! k).
    { pose proof (lookup_declared Sample m k) as H. cbn in H. by rewrite Hk in H. }
    assert (c = {| fields_set := known |}) as ->.
    { destruct (known !! "size") as [[]|]; congruence. }
    unfold sample_getattr. cbn. rewrite Hk, Hknown. by destruct (m !! k).
  - intros m c Hval. cbn in *. unfold sample_validate in Hval.
    unfold declared. cbn.
    destruct (filter _ m !! "size") as [[]|]; by inversion Hval.
  - intros m m' Heq. cbn. unfold sample_validate.
    unfold declared in Heq. cbn in Heq. by rewrite Heq.
Qed.

(** C6. With [None] in [_default_config], [merge_with_default] returns
    the request configuration it was given; so it does after a load
    that cleared the store. *)
Theorem merge_without_default CM (E : env) (w : world) (request_config : Config CM) :
  merge_with_default CM VNone request_config = inr request_config
  /\ merge_with_default CM
       (default_config (load_default_config E None w).2) request_config
     = inr request_config.
Proof. done. Qed.

(** C7. For a fixed default configuration, merging a configuration that
    [merge_with_default] returned gives that configuration again. *)
Theorem merge_with_default_idempotent CM (dflt : value) (rc c : Config CM) :
  ConfigLaws CM ->
  merge_with_default CM dflt rc = inr c ->
  merge_with_default CM dflt c = inr c.
Proof.
  intros L Hfirst.
  destruct dflt as [| | | | | |D];
    [done|
     apply merge_with_default_inr in Hfirst as (D' & [=] & Hval); done..|].
  apply merge_with_default_inr in Hfirst as (D' & [= <-] & Hval); [|done].
  cbn. rewrite (validate_fields_set CM L _ _ Hval), <- Hval.
  apply (validate_declared CM L). apply map_eq; intros k.
  rewrite !lookup_declared. destruct (is_field CM k) eqn:Hk; [|done].
  rewrite !lookup_deep_merge, lookup_declared, Hk, lookup_deep_merge.
  apply merge_entry_absorb.
Qed.

Lemma merge_with_default_idempotent_witness :
  merge_with_default Sample (VDict nested_defaults) nested_request = inr nested_merged
  /\ merge_with_default Sample (VDict nested_defaults) nested_merged = inr nested_merged.
Proof.
  assert (Hfirst : merge_with_default Sample (VDict nested_defaults) nested_request
                   = inr nested_merged) by (vm_compute; reflexivity).
  split; [exact Hfirst|].
  exact (merge_with_default_idempotent Sample (VDict nested_defaults)
           nested_request nested_merged sample_laws Hfirst).
Defined.

(** C1, as the code has it. When [merge_with_default] returns with a
    default configuration loaded, that default is a dictionary and,
    for every declared field: a field the request set explicitly has
    the value the request gave it, except that when this value and the
    value of the default configuration are both dictionaries it has
    their [deep_merge] (default as base, request as override); any
    other field has the value of the default configuration when it
    gives one, else its declared default. *)
Theorem merge_with_default_fields CM (dflt : value) (rc c : Config CM) :
  ConfigLaws CM ->
  dflt <> VNone ->
  merge_with_default CM dflt rc = inr c ->
  exists D, dflt = VDict D /\
    forall k, is_field CM k = true ->
      getattr CM c k =
        match model_dump_exclude_unset CM rc !! k, D !! k with
        | Some (VDict x), Some (VDict d) => Some (VDict (deep_merge d x))
        | Some v, _ => Some v
        | None, Some v => Some v
        | None, None => field_default CM k
        end.
Proof.
  intros L Hloaded Hmerge.
  destruct (merge_with_default_inr CM dflt rc c Hloaded Hmerge) as (D & -> & Hval).
  exists D. split; [done|]. intros k Hk.
  rewrite (validate_getattr CM L _ _ k Hval Hk), lookup_deep_merge.
  destruct (D !! k) as [[]|], (model_dump_exclude_unset CM rc !! k) as [[]|]; done.
Qed.

Lemma merge_with_default_fields_witness :
  merge_with_default Sample (VDict flat_defaults) flat_request = inr flat_merged
  /\ getattr Sample flat_merged "translator" = Some (VStr "google")
  /\ getattr Sample flat_merged "size" = Some (VStr "L")
  /\ getattr Sample flat_merged "a"
     = Some (VDict {[ "b" := VInt 0; "c" := VInt 0 ]}).
Proof.
  assert (Hmerge : merge_with_default Sample (VDict flat_defaults) flat_request
                   = inr flat_merged) by (vm_compute; reflexivity).
  assert (Hloaded : VDict flat_defaults <> VNone) by discriminate.
  destruct (merge_with_default_fields Sample (VDict flat_defaults)
              flat_request flat_merged sample_laws Hloaded Hmerge)
    as (D & [= <-] & Hfields).
  split; [exact Hmerge|].
  split; [|split]; rewrite Hfields by reflexivity; vm_compute; reflexivity.
Defined.

(** C1, as stated, fails on a field that holds a dictionary in the
    request and in the default configuration: with defaults
    [{"a": {"b": 1, "c": 2}}] and a request that sets [a] to
    [{"b": 9}], the merged configuration has [a = {"b": 9, "c": 2}],
    not the value the request gave. *)
Lemma set_fields_kept_fails :
  merge_with_default Sample (VDict nested_defaults) nested_request = inr nested_merged
  /\ ~ set_fields_kept Sample nested_defaults nested_request nested_merged.
Proof.
  split; [vm_compute; reflexivity|].
  intros [Hset _].
  specialize (Hset "a" (VDict {[ "b" := VInt 9 ]}) eq_refl).
  vm_compute in Hset. discriminate Hset.
Qed.

(* ===================================================================== *)
(** ** Reading back is a function; the sample heaps *)
(* ===================================================================== *)

Lemma Forall2_functional {A B} (R : A -> B -> Prop) xs ys1 :
  Forall2 R xs ys1 ->
  Forall (fun y1 => forall x y2, R x y1 -> R x y2 -> y1 = y2) ys1 ->
  forall ys2, Forall2 R xs ys2 -> ys1 = ys2.
Proof.
  induction 1 as [|x y1 xs ys1 HR _ IH]; intros Hall ys2 H2;
    inversion H2; subst; [done|].
  inversion Hall; subst. f_equal; eauto.
Qed.

Lemma repr_functional v1 : forall h p v2, repr h p v1 -> repr h p v2 -> v1 = v2.
Proof.
  induction v1 as [| | | | |vs IH|m IH] using value_nested_ind;
    intros h p v2 H1 H2; inversion H1; subst; inversion H2; subst;
    try done; try congruence.
  - f_equal. simplify_eq. eapply Forall2_functional; [done| |done].
    eapply Forall_impl; [exact IH|]. cbn. eauto.
  - f_equal. simplify_eq. apply map_eq; intros k.
    repeat match goal with H : forall _, option_Forall2 _ _ _ |- _ =>
      specialize (H k) end.
    destruct (m !! k) as [y1|] eqn:Hk;
      repeat match goal with H : option_Forall2 _ _ _ |- _ =>
        inversion H; clear H; subst end; try congruence.
    f_equal. simplify_eq.
    match goal with
    | Ha : Some ?a = ?e, Hb : Some ?b = ?e |- _ =>
        assert (a = b) as -> by congruence
    end.
    eapply (IH k y1 Hk); eauto.
Qed.

(** Lookups in the maps written out above. *)
Ltac sample_lookup :=
  rewrite ?lookup_insert, ?lookup_singleton; repeat case_decide; subst;
  try discriminate; try (constructor; try by constructor).

Lemma nested_base_repr : repr nested_heap (PRef 1%positive) (VDict nested_base).
Proof.
  apply (repr_dict _ _ {[ "x" := PRef 2%positive ]}); [by vm_compute|].
  intros k. unfold nested_base. sample_lookup.
  apply (repr_dict _ _ {[ "a" := PInt 1; "b" := PInt 2 ]}); [by vm_compute|].
  intros k. sample_lookup.
Qed.

Lemma nested_override_repr : repr nested_heap (PRef 3%positive) (VDict nested_override).
Proof.
  apply (repr_dict _ _ {[ "x" := PRef 4%positive ]}); [by vm_compute|].
  intros k. unfold nested_override. sample_lookup.
  apply (repr_dict _ _ {[ "b" := PInt 3 ]}); [by vm_compute|].
  intros k. sample_lookup.
Qed.



(* ===================================================================== *)
(** ** deep_merge: result, exceptions, inputs *)
(* ===================================================================== *)

(** The refinement, from a heap where nothing is set apart. *)
Lemma deep_merge_h_returns h base override jb jo fuel :
  repr h base (VDict jb) ->
  repr h override (VDict jo) ->
  value_size (VDict jo) <= fuel ->
  exists l h',
    deep_merge_h fuel base override h = Ret (PRef l) h'
    /\ h !! l = None
    /\ h ⊆ h'
    /\ repr h' (PRef l) (VDict (deep_merge jb jo)).
Proof.
  intros Hb Ho Hfuel.
  destruct (deep_merge_h_refines fuel jo jb ∅ h base override)
    as (l & h' & Hrun & Hl & Hsub & Hres);
    rewrite ?without_empty; try done.
  rewrite without_empty in Hres. eauto 10.
Qed.

(** C2. [deep_merge(base, override)] returns a dictionary that was not
    in the heap before. Its keys are those of [base] and those of
    [override]. Under a key that both have with dictionaries as values,
    it has the [deep_merge] of the two; under any other key that both
    have, the value of [override]; under a key that one of them has,
    the value that one has. *)
Theorem deep_merge_union h base override jb jo fuel :
  repr h base (VDict jb) ->
  repr h override (VDict jo) ->
  value_size (VDict jo) <= fuel ->
  exists l h' r,
    deep_merge_h fuel base override h = Ret (PRef l) h'
    /\ h !! l = None
    /\ repr h' (PRef l) (VDict r)
    /\ r = deep_merge jb jo
    /\ dom r = dom jb ∪ dom jo
    /\ (forall k x y, jb !! k = Some (VDict x) -> jo !! k = Some (VDict y) ->
          r !! k = Some (VDict (deep_merge x y)))
    /\ (forall k bv ov, jb !! k = Some bv -> jo !! k = Some ov ->
          is_dict bv && is_dict ov = false -> r !! k = Some ov)
    /\ (forall k, jo !! k = None -> r !! k = jb !! k)
    /\ (forall k, jb !! k = None -> r !! k = jo !! k).
Proof.
  intros Hb Ho Hfuel.
  destruct (deep_merge_h_returns h base override jb jo fuel Hb Ho Hfuel)
    as (l & h' & Hrun & Hl & _ & Hres).
  exists l, h', (deep_merge jb jo).
  repeat (split; [done|]). split; [apply dom_deep_merge|].
  repeat split; intros k.
  - intros x y Hx Hy. by rewrite lookup_deep_merge, Hx, Hy.
  - intros bv ov Hx Hy Hnot. rewrite lookup_deep_merge, Hx, Hy.
    by destruct bv, ov.
  - intros Hy. rewrite lookup_deep_merge, Hy. by destruct (jb !! k) as [[]|].
  - intros Hx. rewrite lookup_deep_merge, Hx. by destruct (jo !! k).
Qed.

Lemma deep_merge_union_witness :
  exists l h',
    deep_merge_h 3 (PRef 1%positive) (PRef 3%positive) nested_heap = Ret (PRef l) h'
    /\ nested_heap !! l = None
    /\ repr h' (PRef l) (VDict {[ "x" := VDict {[ "a" := VInt 1; "b" := VInt 3 ]} ]}).
Proof.
  assert (Hfuel : value_size (VDict nested_override) <= 3) by (vm_compute; lia).
  destruct (deep_merge_union nested_heap (PRef 1%positive) (PRef 3%positive)
              nested_base nested_override 3
              nested_base_repr nested_override_repr Hfuel)
    as (l & h' & r & Hrun & Hnew & Hrepr & Hr & _).
  exists l, h'. split; [exact Hrun|]. split; [exact Hnew|].
  assert (Heq : r = {[ "x" := VDict {[ "a" := VInt 1; "b" := VInt 3 ]} ]})
    by (rewrite Hr; vm_compute; reflexivity).
  rewrite <- Heq. exact Hrepr.
Defined.

(** *** A higher recursion limit changes an outcome only when the
    lower one was reached *)







(** *** A chain deeper than the recursion limit *)







(** C4. When [deep_merge] has returned or raised, every object that
    was in the heap before the call is as it was; so [base] and
    [override] read back as the same trees as before, and as no
    other. *)
Theorem deep_merge_no_mutation fuel base override h h' :
  (exists r, deep_merge_h fuel base override h = Ret r h')
  \/ (exists e, deep_merge_h fuel base override h = Raise e h') ->
  (forall l obj, h !! l = Some obj -> h' !! l = Some obj)
  /\ (forall jb, repr h base jb -> forall j, repr h' base j <-> j = jb)
  /\ (forall jo, repr h override jo -> forall j, repr h' override j <-> j = jo).
Proof.
  intros Hrun.
  assert (Hsub : h ⊆ h').
  { pose proof (deep_merge_h_frame fuel h base override h) as Hframe.
    destruct Hrun as [[r Hrun]|[e Hrun]]; rewrite Hrun in Hframe; by apply Hframe. }
  assert (Hsame : forall p v, repr h p v -> forall j, repr h' p j <-> j = v).
  { intros p v Hv j. apply (repr_mono v h h') in Hv; [|done]. split.
    - intros Hj. by eapply repr_functional.
    - by intros ->. }
  split; [|split]; eauto.
  intros l obj Hl. by eapply lookup_weaken.
Qed.

Lemma deep_merge_no_mutation_witness :
  exists r h',
    deep_merge_h 3 (PRef 1%positive) (PRef 3%positive) nested_heap = Ret r h'
    /\ (forall l obj, nested_heap !! l = Some obj -> h' !! l = Some obj)
    /\ repr h' (PRef 1%positive) (VDict nested_base)
    /\ repr h' (PRef 3%positive) (VDict nested_override).
Proof.
  destruct (deep_merge_h 3 (PRef 1%positive) (PRef 3%positive) nested_heap)
    as [r h'| |] eqn:Hrun; try (vm_compute in Hrun; discriminate Hrun).
  exists r, h'. split; [reflexivity|].
  destruct (deep_merge_no_mutation 3 (PRef 1%positive) (PRef 3%positive)
              nested_heap h' (or_introl (ex_intro _ r Hrun)))
    as (Hobjs & Hbase & Hover).
  split; [exact Hobjs|]. split.
  - by apply (Hbase _ nested_base_repr).
  - by apply (Hover _ nested_override_repr).
Defined.

(* ===================================================================== *)
(** ** Further properties of deep_merge on trees *)
(* ===================================================================== *)

Lemma deep_merge_same (a : gmap string value) : deep_merge a a = a.
Proof.
  rewrite <- (deep_merge_empty_r a) at 2 3. apply deep_merge_absorb.
Qed.

Lemma deep_merge_again_value (v : value) :
  match v with
  | VDict o => forall b, deep_merge (deep_merge b o) o = deep_merge b o
  | _ => True
  end.
Proof.
  induction v as [| | | | | |m IH] using value_nested_ind; try done.
  intros base. apply map_eq; intros k. rewrite !lookup_deep_merge.
  destruct (m !! k) as [ov|] eqn:Hk; [|by destruct (base !! k) as [[]|]].
  specialize (IH k ov Hk). cbn in IH.
  destruct ov as [| | | | | |y]; try by destruct (base !! k) as [[]|].
  destruct (base !! k) as [[| | | | | |x]|]; cbn;
    rewrite ?deep_merge_same; try done.
  by rewrite IH.
Qed.

(** X1. Merging a dictionary into itself gives it back, and merging the
    same override a second time changes nothing. *)
Theorem deep_merge_repeat (a b : gmap string value) :
  deep_merge a a = a
  /\ deep_merge (deep_merge a b) b = deep_merge a b.
Proof.
  split; [apply deep_merge_same|apply (deep_merge_again_value (VDict b))].
Qed.

(** X2. When no key holds a dictionary in both inputs, [deep_merge] is
    the plain update of [base] by [override]: the union of the two that
    prefers [override]. *)
Theorem deep_merge_flat (base override : gmap string value) :
  (forall k x y, base !! k = Some (VDict x) -> override !! k = Some (VDict y) -> False) ->
  deep_merge base override = override ∪ base.
Proof.
  intros Hflat. apply map_eq; intros k.
  rewrite lookup_deep_merge, lookup_union.
  destruct (base !! k) as [bv|] eqn:Hb, (override !! k) as [ov|] eqn:Ho;
    cbn; try done.
  - destruct bv as [| | | | | |x], ov as [| | | | | |y]; try done.
    by destruct (Hflat k x y).
  - by destruct bv.
Qed.

Lemma deep_merge_flat_witness :
  deep_merge flat_defaults {[ "size" := VStr "L" ]}
  = {[ "size" := VStr "L" ]} ∪ flat_defaults.
Proof.
  apply deep_merge_flat. intros k x y Hx Hy.
  apply lookup_singleton_Some in Hy as [_ Hy]. discriminate Hy.
Defined.

Lemma silent_on_lookup path : forall v,
  silent_on path v = true -> lookup_path path v = None.
Proof.
  induction path as [|k rest IH]; intros v; [done|].
  destruct v as [| | | | | |o]; try done. cbn.
  destruct (o !! k) as [o'|]; [|done].
  destruct rest as [|k' rest']; [done|]. apply IH.
Qed.

(** X3. A value that [override] gives under a path of keys, and that
    is no dictionary, is what the merged dictionary has under that
    path, whatever [base] holds. *)
Theorem deep_merge_override_wins path : forall (base override : gmap string value) v,
  lookup_path path (VDict override) = Some v ->
  is_dict v = false ->
  lookup_path path (VDict (deep_merge base override)) = Some v.
Proof.
  induction path as [|k rest IH]; intros base override v Hv Hleaf.
  { cbn in Hv. by injection Hv as <-. }
  cbn in *. rewrite lookup_deep_merge.
  destruct (override !! k) as [ov|]; [|done].
  destruct (base !! k) as [[| | | | | |x]|], ov as [| | | | | |y]; cbn; try done.
  by apply IH.
Qed.

Lemma deep_merge_override_wins_witness :
  lookup_path ["x"; "b"] (VDict (deep_merge nested_base nested_override))
  = Some (VInt 3).
Proof.
  apply deep_merge_override_wins; reflexivity.
Defined.

(** X4. Where [override] does not speak about a path, the merged
    dictionary has under it what [base] has: a nested dictionary of
    [base] keeps the entries that [override] does not name. *)
Theorem deep_merge_keeps_base path : forall (base override : gmap string value),
  silent_on path (VDict override) = true ->
  lookup_path path (VDict (deep_merge base override))
  = lookup_path path (VDict base).
Proof.
  induction path as [|k rest IH]; intros base override Hsilent; [done|].
  cbn in *. rewrite lookup_deep_merge.
  destruct (override !! k) as [ov|]; [|by destruct (base !! k) as [[]|]].
  destruct rest as [|k' rest']; [done|].
  destruct ov as [| | | | | |y]; try done.
  destruct (base !! k) as [[| | | | | |x]|];
    try (cbn [merge_entry]; by rewrite (silent_on_lookup _ _ Hsilent)).
  cbn [merge_entry]. by apply IH.
Qed.

Lemma deep_merge_keeps_base_witness :
  lookup_path ["x"; "a"] (VDict (deep_merge nested_base nested_override))
  = Some (VInt 1).
Proof.
  rewrite deep_merge_keeps_base; reflexivity.
Defined.

(* ===================================================================== *)
(** ** Further properties of merge_with_default and of the store *)
(* ===================================================================== *)

(** X5. With a default configuration loaded that is no dictionary,
    [merge_with_default] raises before it validates anything, for every
    request and every Config model: [TypeError] when the default is a
    list and the request set a field, [AttributeError] otherwise. *)
Theorem merge_with_default_not_dict CM (dflt : value) (rc : Config CM) :
  dflt <> VNone ->
  is_dict dflt = false ->
  merge_with_default CM dflt rc
  = inl (match dflt with
         | VList _ =>
             if bool_decide (dom (model_dump_exclude_unset CM rc) = ∅)
             then AttributeError else TypeError
         | _ => AttributeError
         end).
Proof.
  intros Hloaded Hnot. unfold merge_with_default, deep_merge_any, keys.
  destruct dflt; try done. by destruct (bool_decide _).
Qed.

Lemma merge_with_default_not_dict_witness :
  merge_with_default Sample (VList [VStr "size"]) flat_request = inl TypeError
  /\ merge_with_default Sample (VInt 3) flat_request = inl AttributeError.
Proof.
  split.
  - exact (merge_with_default_not_dict Sample (VList [VStr "size"]) flat_request
             ltac:(discriminate) eq_refl).
  - exact (merge_with_default_not_dict Sample (VInt 3) flat_request
             ltac:(discriminate) eq_refl).
Defined.

(** X6. A request that set no field gets the configuration validated
    from the default dictionary alone. An empty default dictionary is
    not "no defaults": the fields the request set are validated
    again. *)
Theorem merge_with_default_trivial_sides CM (D : gmap string value) (rc : Config CM) :
  (model_dump_exclude_unset CM rc = ∅ ->
   merge_with_default CM (VDict D) rc = model_validate CM (VDict D))
  /\ merge_with_default CM (VDict ∅) rc
     = model_validate CM (VDict (model_dump_exclude_unset CM rc)).
Proof.
  split.
  - intros Hunset. cbn. by rewrite Hunset, deep_merge_empty_r.
  - cbn. by rewrite deep_merge_empty_l.
Qed.

Lemma merge_with_default_trivial_sides_witness :
  merge_with_default Sample (VDict flat_defaults) {| fields_set := ∅ |}
  = model_validate Sample (VDict flat_defaults).
Proof.
  exact (proj1 (merge_with_default_trivial_sides Sample flat_defaults
                  {| fields_set := ∅ |}) eq_refl).
Defined.





(* ===================================================================== *)
(** ** Further properties of deep_merge on the heap *)
(* ===================================================================== *)

Lemma both_dicts_same_heap l key v h c h' :
  both_dicts l key v h = Ret c h' -> h' = h.
Proof.
  intros Hrun. pose proof (both_dicts_reads (fun x => x = h) l key v h eq_refl) as H.
  by rewrite Hrun in H.
Qed.

Lemma py_getitem_same_heap l key h v h' :
  py_getitem l key h = Ret v h' -> h' = h.
Proof.
  intros Hrun. pose proof (py_getitem_reads (fun x => x = h) l key h eq_refl) as H.
  by rewrite Hrun in H.
Qed.

(** What [deep_merge] returns is a reference to an object that was not
    in the heap. *)
Lemma deep_merge_h_fresh_ref fuel b o h r h' :
  deep_merge_h fuel b o h = Ret r h' -> exists l, r = PRef l /\ h !! l = None.
Proof.
  destruct fuel as [|n]; [done|]. cbn [deep_merge_h]. unfold bind.
  pose proof (py_copy_frame h b h (reflexivity h)) as Hcopy.
  destruct (py_copy b h) as [l h1| |]; try done.
  destruct (py_items o h1) as [items h2| |]; try done.
  destruct (for_each _ _ h2) as [[] h3| |]; try done.
  intros [= <- <-]. exists l. split; [done|apply Hcopy].
Qed.

Section Shares.
Variables (n : nat) (hb : heap) (l : loc).
Hypothesis Hfresh : hb !! l = None.

Lemma merge_item_h_shares hc dr key p h' :
  hb ⊆ hc ->
  hc !! l = Some (ODict dr) ->
  merge_item_h (deep_merge_h n) l (key, p) hc = Ret tt h' ->
  hb ⊆ h'
  /\ exists p', h' !! l = Some (ODict (<[key := p']> dr))
       /\ (p' = p \/ exists l2, p' = PRef l2 /\ hb !! l2 = None).
Proof.
  intros Hsub Hl. unfold merge_item_h, bind.
  destruct (both_dicts l key p hc) as [c h1| |] eqn:Hboth; try done.
  apply both_dicts_same_heap in Hboth as ->.
  assert (Hset : forall q h2 h3,
            hc ⊆ h2 -> py_setitem l key q h2 = Ret tt h3 ->
            hb ⊆ h3 /\ h3 !! l = Some (ODict (<[key := q]> dr))).
  { intros q h2 h3 Hsub2. unfold py_setitem, deref, store.
    rewrite (lookup_weaken hc h2 l (ODict dr)) by done.
    intros [= <-]. split; [|apply lookup_insert_eq].
    apply insert_subseteq_r; [done|]. by etrans. }
  destruct c.
  - destruct (py_getitem l key hc) as [old h2| |] eqn:Hget; try done.
    apply py_getitem_same_heap in Hget as ->.
    destruct (deep_merge_h n old p hc) as [merged h3| |] eqn:Hrec; try done.
    pose proof (deep_merge_h_frame n hc old p hc (reflexivity hc)) as Hframe.
    rewrite Hrec in Hframe.
    apply deep_merge_h_fresh_ref in Hrec as (l2 & -> & Hl2).
    intros Hrun. destruct (Hset _ _ _ Hframe Hrun) as [Hsub3 Hl3].
    split; [done|]. exists (PRef l2). split; [done|]. right.
    exists l2. split; [done|]. by eapply lookup_weaken_None.
  - intros Hrun. destruct (Hset _ _ _ (reflexivity hc) Hrun) as [Hsub3 Hl3].
    split; [done|]. exists p. split; [done|]. by left.
Qed.

Lemma for_each_shares items : forall hc dr h',
  NoDup items.*1 ->
  hb ⊆ hc ->
  hc !! l = Some (ODict dr) ->
  for_each items (merge_item_h (deep_merge_h n) l) hc = Ret tt h' ->
  hb ⊆ h'
  /\ exists dr', h' !! l = Some (ODict dr')
       /\ forall k,
            (k ∉ items.*1 -> dr' !! k = dr !! k)
            /\ (forall p, (k, p) ∈ items ->
                  dr' !! k = Some p
                  \/ exists l2, dr' !! k = Some (PRef l2) /\ hb !! l2 = None).
Proof.
  induction items as [|[key p] items IH]; intros hc dr h' Hnd Hsub Hl.
  - cbn. intros [= <-]. split; [done|]. exists dr. split; [done|].
    intros k. split; [done|]. intros q Hq. by apply elem_of_nil in Hq.
  - cbn [for_each]. unfold bind.
    destruct (merge_item_h _ l (key, p) hc) as [[] h1| |] eqn:Hturn; try done.
    intros Hrest. cbn in Hnd. apply NoDup_cons in Hnd as [Hkey Hnd].
    destruct (merge_item_h_shares hc dr key p h1 Hsub Hl Hturn)
      as (Hsub1 & p' & Hl1 & Hp').
    destruct (IH h1 (<[key := p']> dr) h' Hnd Hsub1 Hl1 Hrest)
      as (Hsub' & dr' & Hl' & Hent).
    split; [done|]. exists dr'. split; [done|]. intros k. split.
    + cbn. rewrite not_elem_of_cons. intros [Hne Hk].
      rewrite (proj1 (Hent k) Hk). by rewrite lookup_insert_ne.
    + intros q Hq. apply elem_of_cons in Hq as [[= -> ->]|Hq].
      * rewrite (proj1 (Hent key) Hkey), lookup_insert_eq.
        destruct Hp' as [->|(l2 & -> & Hl2)]; [by left|right; eauto].
      * by apply (proj2 (Hent k)).
Qed.
End Shares.

(** X9. [deep_merge] copies no value. Under a key that [override]
    lacks, the returned dictionary holds the very value (for a list or
    dictionary, the very object) that [base] holds; under a key of
    [override] it holds the very value of [override], or a dictionary
    made during the call. *)
Theorem deep_merge_h_shares fuel lb lo db dov h r h' :
  h !! lb = Some (ODict db) ->
  h !! lo = Some (ODict dov) ->
  deep_merge_h fuel (PRef lb) (PRef lo) h = Ret r h' ->
  exists l dr,
    r = PRef l
    /\ h !! l = None
    /\ h' !! l = Some (ODict dr)
    /\ forall k,
         match dov !! k with
         | None => dr !! k = db !! k
         | Some p => dr !! k = Some p
                     \/ exists l2, dr !! k = Some (PRef l2) /\ h !! l2 = None
         end.
Proof.
  intros Hlb Hlo. destruct fuel as [|n]; [done|].
  cbn [deep_merge_h]. unfold bind, py_copy, py_items, deref, alloc.
  rewrite Hlb. set (l := fresh (dom h)).
  assert (Hl : h !! l = None) by (apply not_elem_of_dom, is_fresh).
  rewrite lookup_insert_ne by (intros ->; congruence).
  rewrite Hlo. unfold ret.
  destruct (for_each _ _ _) as [[] h1| |] eqn:Hloop; try done.
  intros [= <- <-].
  destruct (for_each_shares n h l Hl (map_to_list dov) _ db h1
              (NoDup_fst_map_to_list dov)
              (insert_subseteq h l (ODict db) Hl)
              (lookup_insert_eq h l (ODict db)) Hloop)
    as (_ & dr & Hdr & Hent).
  exists l, dr. repeat (split; [done|]). intros k.
  destruct (dov !! k) as [p|] eqn:Hk.
  - apply (proj2 (Hent k)). by apply elem_of_map_to_list.
  - apply (proj1 (Hent k)). intros Hin.
    apply list_elem_of_fmap in Hin as ([k' p] & -> & Hin).
    apply elem_of_map_to_list in Hin. cbn in Hk. congruence.
Qed.

Lemma deep_merge_h_shares_witness :
  exists r h',
    deep_merge_h 2 (PRef 1%positive) (PRef 3%positive) mismatch_heap = Ret r h'
    /\ exists l dr,
         r = PRef l
         /\ mismatch_heap !! l = None
         /\ h' !! l = Some (ODict dr)
         /\ (dr !! "x" = Some (PInt 5)
             \/ exists l2, dr !! "x" = Some (PRef l2) /\ mismatch_heap !! l2 = None).
Proof.
  destruct (deep_merge_h 2 (PRef 1%positive) (PRef 3%positive) mismatch_heap)
    as [r h'| |] eqn:Hrun; try (vm_compute in Hrun; discriminate Hrun).
  exists r, h'. split; [reflexivity|].
  destruct (deep_merge_h_shares 2 1%positive 3%positive
              {[ "x" := PRef 2%positive ]} {[ "x" := PInt 5 ]}
              mismatch_heap r h' eq_refl eq_refl Hrun)
    as (l & dr & Hr & Hl & Hdr & Hent).
  exists l, dr. repeat (split; [assumption|]).
  specialize (Hent "x"). by rewrite lookup_singleton_eq in Hent.
Defined.

(** X10. On a [base] that is no dictionary, [deep_merge] on the heap
    does what [deep_merge_any] says: a scalar has no [copy]
    ([AttributeError]); a list is copied and returned when [override]
    is empty, and the first item assignment raises [TypeError] when it
    is not. *)
Theorem deep_merge_h_not_dict h base override jbase jo fuel :
  repr h base jbase ->
  is_dict jbase = false ->
  repr h override (VDict jo) ->
  0 < fuel ->
  match deep_merge_any jbase jo with
  | inl e => exists h', deep_merge_h fuel base override h = Raise e h'
  | inr v => exists l h',
      deep_merge_h fuel base override h = Ret (PRef l) h'
      /\ h !! l = None
      /\ repr h' (PRef l) v
  end.
Proof.
  intros Hb Hnot Ho Hfuel. destruct fuel as [|n]; [lia|].
  inversion Hb as [| | | | |lb xs vs Hlb Hxs|]; subst; try done;
    try (by exists h).
  inversion Ho as [| | | | | |lo dov ? Hlo Hdov]; subst.
  set (l := fresh (dom h)).
  assert (Hl : h !! l = None) by (apply not_elem_of_dom, is_fresh).
  assert (Hrun : deep_merge_h (S n) (PRef lb) (PRef lo) h
                 = (let* _ := for_each (map_to_list dov)
                                (merge_item_h (deep_merge_h n) l) in
                    ret (PRef l)) (<[l := OList xs]> h)).
  { cbn [deep_merge_h]. unfold bind at 1 2, py_copy, py_items, deref, alloc.
    rewrite Hlb. fold l. rewrite lookup_insert_ne by (intros ->; congruence).
    by rewrite Hlo. }
  rewrite Hrun. clear Hrun. cbn [deep_merge_any]. case_bool_decide as Hdom.
  - assert (dov = ∅) as ->.
    { apply map_empty; intros k. specialize (Hdov k).
      apply dom_empty_iff_L in Hdom. subst jo.
      rewrite lookup_empty in Hdov. by inversion Hdov. }
    rewrite map_to_list_empty. exists l, (<[l := OList xs]> h).
    split; [done|]. split; [done|].
    eapply repr_list; [apply lookup_insert_eq|].
    eapply Forall2_impl; [exact Hxs|]. intros x v Hxv.
    eapply repr_mono; [|exact Hxv]. by apply insert_subseteq.
  - destruct (map_to_list dov) as [|[key p] items] eqn:Hitems.
    + exfalso. apply Hdom, dom_empty_iff_L, map_empty. intros k.
      apply map_to_list_empty_iff in Hitems. subst dov.
      specialize (Hdov k). rewrite lookup_empty in Hdov. by inversion Hdov.
    + exists (<[l := OList xs]> h).
      cbn [for_each]. unfold bind, merge_item_h, bind, both_dicts, bind,
        py_contains, py_getitem, py_setitem, deref.
      rewrite !lookup_insert_eq. unfold ret, raise.
      destruct (existsb _ xs); cbv beta iota; by rewrite ?lookup_insert_eq.
Qed.

Lemma list_base_repr : repr list_heap (PRef 1%positive) (VList [VStr "size"]).
Proof.
  apply (repr_list _ _ [PStr "size"]); [by vm_compute|].
  repeat constructor.
Qed.

Lemma list_override_repr :
  repr list_heap (PRef 3%positive) (VDict {[ "size" := VStr "L" ]}).
Proof.
  apply (repr_dict _ _ {[ "size" := PStr "L" ]}); [by vm_compute|].
  intros k. sample_lookup.
Qed.

Lemma deep_merge_h_not_dict_witness :
  exists h',
    deep_merge_h 1 (PRef 1%positive) (PRef 3%positive) list_heap = Raise TypeError h'.
Proof.
  pose proof (deep_merge_h_not_dict list_heap (PRef 1%positive) (PRef 3%positive)
                (VList [VStr "size"]) {[ "size" := VStr "L" ]} 1
                list_base_repr eq_refl list_override_repr (le_n 1)) as H.
  assert (Hany : deep_merge_any (VList [VStr "size"]) {[ "size" := VStr "L" ]}
                 = inl TypeError) by (vm_compute; reflexivity).
  rewrite Hany in H. exact H.
Defined.

(** *** No cycle detection *)

Section SelfReference.
Variables (lb lo : loc) (db dov : gmap string pyval) (k : string).
Hypothesis Hbk : db !! k = Some (PRef lb).
Hypothesis Hok : dov !! k = Some (PRef lo).

Lemma for_each_self_reference n hb l :
  hb !! lb = Some (ODict db) ->
  hb !! lo = Some (ODict dov) ->
  hb !! l = None ->
  (forall h2 r h3, hb ⊆ h2 -> deep_merge_h n (PRef lb) (PRef lo) h2 <> Ret r h3) ->
  forall items hc dr h',
    NoDup items.*1 ->
    (k, PRef lo) ∈ items ->
    hb ⊆ hc ->
    hc !! l = Some (ODict dr) ->
    dr !! k = Some (PRef lb) ->
    for_each items (merge_item_h (deep_merge_h n) l) hc <> Ret tt h'.
Proof.
  intros Hlb Hlo Hl IHn.
  induction items as [|[key p] items IH]; intros hc dr h' Hnd Hin Hsub Hdr Hk.
  { by apply elem_of_nil in Hin. }
  cbn in Hnd. apply NoDup_cons in Hnd as [Hkey Hnd].
  cbn [for_each]. unfold bind.
  apply elem_of_cons in Hin as [[= <- <-]|Hin].
  - assert (Hget : py_getitem l k hc = Ret (PRef lb) hc).
    { unfold py_getitem, deref. by rewrite Hdr, Hk. }
    assert (Hisb : py_isdict (PRef lb) hc = Ret true hc).
    { unfold py_isdict, deref. by rewrite (lookup_weaken hb hc lb (ODict db)). }
    assert (Hiso : py_isdict (PRef lo) hc = Ret true hc).
    { unfold py_isdict, deref. by rewrite (lookup_weaken hb hc lo (ODict dov)). }
    assert (Hboth : both_dicts l k (PRef lo) hc = Ret true hc).
    { unfold both_dicts, bind, py_contains, deref. rewrite Hdr. unfold ret.
      rewrite bool_decide_eq_true_2 by eauto. by rewrite Hget, Hisb, Hiso. }
    unfold merge_item_h, bind. rewrite Hboth, Hget.
    destruct (deep_merge_h n (PRef lb) (PRef lo) hc) as [r h3| |] eqn:Hrec;
      try done.
    by destruct (IHn hc r h3 Hsub).
  - destruct (merge_item_h _ l (key, p) hc) as [[] h1| |] eqn:Hturn; try done.
    destruct (merge_item_h_shares n hb l Hl hc dr key p h1 Hsub Hdr Hturn)
      as (Hsub1 & p' & Hl1 & _).
    apply (IH h1 (<[key := p']> dr) h' Hnd Hin Hsub1 Hl1).
    rewrite lookup_insert_ne; [done|]. intros ->. apply Hkey.
    by apply (list_elem_of_fmap_2 fst items (k, PRef lo)).
Qed.

Lemma deep_merge_h_self_reference_at fuel : forall h r h',
  h !! lb = Some (ODict db) ->
  h !! lo = Some (ODict dov) ->
  deep_merge_h fuel (PRef lb) (PRef lo) h <> Ret r h'.
Proof.
  induction fuel as [|n IH]; intros h r h' Hlb Hlo; [done|].
  cbn [deep_merge_h]. unfold bind at 1 2, py_copy, py_items, deref, alloc.
  rewrite Hlb. set (l := fresh (dom h)).
  assert (Hl : h !! l = None) by (apply not_elem_of_dom, is_fresh).
  rewrite lookup_insert_ne by (intros ->; congruence).
  rewrite Hlo. unfold ret at 1. unfold bind.
  destruct (for_each _ _ _) as [[] h1| |] eqn:Hloop; try done.
  exfalso.
  eapply (for_each_self_reference n h l Hlb Hlo Hl); [| | | | | |exact Hloop].
  - intros h2 r2 h3 Hsub. apply IH; by eapply lookup_weaken.
  - apply NoDup_fst_map_to_list.
  - by apply elem_of_map_to_list.
  - by apply insert_subseteq.
  - apply lookup_insert_eq.
  - done.
Qed.
End SelfReference.

(** X11. [deep_merge] has no cycle detection: when [base] holds itself
    under a key and [override] holds itself under the same key, the
    call does not return, whatever the recursion budget (in the
    interpreter the recursion ends in [RecursionError]). *)
Theorem deep_merge_h_self_reference fuel lb lo db dov k h r h' :
  h !! lb = Some (ODict db) ->
  h !! lo = Some (ODict dov) ->
  db !! k = Some (PRef lb) ->
  dov !! k = Some (PRef lo) ->
  deep_merge_h fuel (PRef lb) (PRef lo) h <> Ret r h'.
Proof.
  intros Hlb Hlo Hbk Hok.
  by apply (deep_merge_h_self_reference_at lb lo db dov k Hbk Hok).
Qed.

Lemma deep_merge_h_self_reference_witness :
  cyclic_heap !! 1%positive = Some (ODict {[ "x" := PRef 1%positive ]})
  /\ forall fuel r h',
       deep_merge_h fuel (PRef 1%positive) (PRef 1%positive) cyclic_heap <> Ret r h'.
Proof.
  split; [reflexivity|]. intros fuel r h'.
  exact (deep_merge_h_self_reference fuel 1%positive 1%positive
           {[ "x" := PRef 1%positive ]} {[ "x" := PRef 1%positive ]} "x"
           cyclic_heap r h' eq_refl eq_refl eq_refl eq_refl).
Defined.

(* ===================================================================== *)
(** ** The order of the items *)
(* ===================================================================== *)

Lemma lookup_merge_item key v (result : gmap string value) k :
  merge_item merge_into key v result !! k
  = if decide (k = key) then merge_entry (result !! key) (Some v)
    else result !! k.
Proof.
  unfold merge_item. case_decide as Hk.
  - subst k. destruct (result !! key) as [[]|], v; cbn;
      by rewrite lookup_insert_eq.
  - destruct (result !! key) as [[]|], v; by rewrite lookup_insert_ne.
Qed.

Lemma lookup_deep_merge_items items : forall (base : gmap string value) k,
  NoDup items.*1 ->
  deep_merge_items base items !! k
  = merge_entry (base !! k) ((list_to_map items : gmap string value) !! k).
Proof.
  induction items as [|[key v] items IH]; intros base k Hnd.
  { cbn. rewrite lookup_empty. by destruct (base !! k) as [[]|]. }
  cbn in Hnd. apply NoDup_cons in Hnd as [Hkey Hnd].
  cbn [deep_merge_items foldl list_to_map foldr fst snd].
  change (foldl _ ?b items) with (deep_merge_items b items).
  rewrite IH by done. rewrite lookup_merge_item.
  change (foldr _ ∅ items) with (list_to_map items : gmap string value).
  case_decide as Hk.
  - subst k. rewrite lookup_insert_eq.
    rewrite (not_elem_of_list_to_map_1 items key Hkey).
    by destruct (merge_entry (base !! key) (Some v)) as [[]|].
  - by rewrite lookup_insert_ne.
Qed.

(** X12. The order in which the loop visits the items of [override]
    does not matter: run from first to last over any listing of the
    entries of [override], each key once, it builds the dictionary
    that [deep_merge] returns. *)
Theorem deep_merge_any_order (base override : gmap string value)
    (items : list (string * value)) :
  NoDup items.*1 ->
  list_to_map items = override ->
  deep_merge_items base items = deep_merge base override.
Proof.
  intros Hnd <-. apply map_eq; intros k.
  by rewrite lookup_deep_merge_items, lookup_deep_merge.
Qed.

Lemma deep_merge_any_order_witness :
  deep_merge_items flat_defaults [("size", VStr "L"); ("translator", VStr "deepl")]
  = deep_merge_items flat_defaults [("translator", VStr "deepl"); ("size", VStr "L")].
Proof.
  assert (Hnd1 : NoDup [("size", VStr "L"); ("translator", VStr "deepl")].*1).
  { cbn. by apply (bool_decide_unpack _). }
  assert (Hnd2 : NoDup [("translator", VStr "deepl"); ("size", VStr "L")].*1).
  { cbn. by apply (bool_decide_unpack _). }
  rewrite (deep_merge_any_order flat_defaults
             {[ "translator" := VStr "deepl"; "size" := VStr "L" ]} _ Hnd1)
    by (vm_compute; reflexivity).
  rewrite (deep_merge_any_order flat_defaults
             {[ "translator" := VStr "deepl"; "size" := VStr "L" ]} _ Hnd2)
    by (vm_compute; reflexivity).
  reflexivity.
Defined.
